(** * TaskGlitch: the task store of [src/hooks/useTasks.ts]

    A shallow embedding of the [useTasks] hook: the task collection, the
    single undo slot, the load effect, the memoised metrics and the CRUD
    callbacks, followed by the properties of the store that the
    specification states.  The handlers, the filters and the activity
    log of [src/App.tsx] come after the store.

    Conventions of the embedding.

    - A JavaScript [number] is an IEEE 754 binary64 value: [float], with
      the comparisons [<?] and [<=?] of the standard library, which are
      false on NaN exactly as [>] and [<=] are in JavaScript.
    - [new Date().toISOString()] and [crypto.randomUUID()] read the
      environment; the values they return are arguments of the operations.
    - A React state setter replaces a component of the store; every
      callback below is applied to the committed store, that is, each
      operation is issued from a render that has seen the previous one
      (in [App.tsx] each callback runs in an event handler of its own). *)

From Stdlib Require Import List String Bool ZArith Permutation.
From Stdlib Require Import Floats.
Import ListNotations.
Open Scope string_scope.
Open Scope list_scope.

(** ** Data model *)

Definition number := float.

Inductive Status := Todo | InProgress | Done.
Inductive Priority := High | Medium | Low.

Definition Status_eqb (a b : Status) : bool :=
  match a, b with
  | Todo, Todo | InProgress, InProgress | Done, Done => true
  | _, _ => false
  end.

(** Modelled from the spec: the [Task] interface of [@/types], which is
    not among the sources; the fields are those of the data model of the
    specification.  [completedAt] is the one optional field. *)
Record Task := mkTask {
  id : string;
  title : string;
  status : Status;
  priority : Priority;
  revenue : number;
  timeTaken : number;
  createdAt : string;
  completedAt : option string
}.

(** The argument of [addTask], [Omit<Task, 'id'> & { id?: string }]: every
    field of a task, the identifier being optional. *)
Record NewTask := mkNewTask {
  n_id : option string;
  n_title : string;
  n_status : Status;
  n_priority : Priority;
  n_revenue : number;
  n_timeTaken : number;
  n_createdAt : string;
  n_completedAt : option string
}.

(** [Partial<Task>]: every key may be absent ([None]); a present key
    carries a value of the type of the field.  For the optional field
    [completedAt] a present key carries a string or [undefined].  For
    the other fields a key that is present with the value [undefined],
    which the type also admits, is outside this record: a statement
    about patches speaks of the patches whose present keys carry values
    of the type of the field. *)
Record Patch := mkPatch {
  p_id : option string;
  p_title : option string;
  p_status : option Status;
  p_priority : option Priority;
  p_revenue : option number;
  p_timeTaken : option number;
  p_createdAt : option string;
  p_completedAt : option (option string)
}.

(** The four [useState] cells of the hook. *)
Record Store := mkStore {
  tasks : list Task;
  loading : bool;
  error : option string;
  lastDeleted : option Task
}.

(** The state of the first render. *)
Definition initialStore : Store := mkStore [] true None None.

Definition setTasks (f : list Task -> list Task) (s : Store) : Store :=
  mkStore (f (tasks s)) (loading s) (error s) (lastDeleted s).

Definition setLoading (b : bool) (s : Store) : Store :=
  mkStore (tasks s) b (error s) (lastDeleted s).

Definition setError (e : option string) (s : Store) : Store :=
  mkStore (tasks s) (loading s) e (lastDeleted s).

Definition setLastDeleted (d : option Task) (s : Store) : Store :=
  mkStore (tasks s) (loading s) (error s) d.

(** ** The load effect *)

(** What [await res.json()] produces, as far as [Array.isArray] and the
    cast to [Task[]] distinguish. *)
Inductive Json :=
| JArray (data : list Task)
| JOther.

(** The body of a response: [res.json()] throws (with an error that may
    carry a message) or yields a value. *)
Inductive Body :=
| BodyThrows (message : option string)
| BodyJson (data : Json).

(** The outcomes of [fetch('/tasks.json')]: the promise rejects, or it
    resolves to a response with its [ok] flag and its body. *)
Inductive Fetch :=
| FetchRejects (message : option string)
| FetchResponse (ok : bool) (body : Body).

(** [e?.message ?? 'Failed to load tasks'] *)
Definition errorMessage (message : option string) : string :=
  match message with
  | Some m => m
  | None => "Failed to load tasks"
  end.

Definition whenMounted (mounted : bool) (f : Store -> Store) (s : Store) : Store :=
  if mounted then f s else s.

(** The [catch] block followed by the [finally] block. *)
Definition loadFailed (mounted : bool) (message : option string) (s : Store) : Store :=
  whenMounted mounted (setLoading false)
    (whenMounted mounted (setError (Some (errorMessage message))) s).

(** The rest of the [try] block once [data] is known, followed by the
    [finally] block. *)
Definition loadData (generateSalesTasks : nat -> list Task)
    (mounted : bool) (data : Json) (s : Store) : Store :=
  let normalized := match data with JArray l => l | JOther => [] end in
  let safeData :=
    match List.length normalized with
    | O => generateSalesTasks 50
    | S _ => normalized
    end in
  whenMounted mounted (setLoading false)
    (whenMounted mounted (setTasks (fun _ => safeData)) s).

(** [loadTasks]; the generator of [@/utils/seed] is a parameter. *)
Definition loadTasks (generateSalesTasks : nat -> list Task)
    (mounted : bool) (outcome : Fetch) (s : Store) : Store :=
  match outcome with
  | FetchRejects message => loadFailed mounted message s
  | FetchResponse false _ => loadData generateSalesTasks mounted (JArray []) s
  | FetchResponse true (BodyThrows message) => loadFailed mounted message s
  | FetchResponse true (BodyJson data) => loadData generateSalesTasks mounted data s
  end.

(** ** Metrics *)

Record Metrics := mkMetrics {
  totalRevenue : number;
  totalTimeTaken : number;
  timeEfficiencyPct : number;
  revenuePerHour : number;
  averageROI : number;
  performanceGrade : string
}.

Definition INITIAL_METRICS : Metrics :=
  mkMetrics 0%float 0%float 0%float 0%float 0%float "Needs Improvement".

(** The functions that the hook imports from [@/utils/logic], which is not
    among the sources. *)
Record Logic := mkLogic {
  computeAverageROI : list Task -> number;
  computePerformanceGrade : number -> string;
  computeRevenuePerHour : list Task -> number;
  computeTimeEfficiency : list Task -> number;
  computeTotalRevenue : list Task -> number
}.

(** The [metrics] memo. *)
Definition metrics (L : Logic) (ts : list Task) : Metrics :=
  match List.length ts with
  | O => INITIAL_METRICS
  | S _ =>
    let averageROI := computeAverageROI L ts in
    mkMetrics
      (computeTotalRevenue L ts)
      (fold_left (fun s t => (s + timeTaken t)%float) ts 0%float)
      (computeTimeEfficiency L ts)
      (computeRevenuePerHour L ts)
      averageROI
      (computePerformanceGrade L averageROI)
  end.

(** ** CRUD *)

(** The record that [addTask] appends: the spread of the argument, then
    the four keys that the literal sets after it. *)
Definition newTask (task : NewTask) (uuid createdNow completedNow : string) : Task :=
  mkTask
    (match n_id task with Some i => i | None => uuid end)
    (n_title task)
    (n_status task)
    (n_priority task)
    (n_revenue task)
    (if (0 <? n_timeTaken task)%float then n_timeTaken task else 1%float)
    createdNow
    (if Status_eqb (n_status task) Done then Some completedNow else None).

Definition addTask (task : NewTask) (uuid createdNow completedNow : string)
    (s : Store) : Store :=
  setTasks (fun prev => prev ++ [newTask task uuid createdNow completedNow]) s.

(** [{ ...t, ...patch }] *)
Definition merge (t : Task) (patch : Patch) : Task :=
  mkTask
    (match p_id patch with Some v => v | None => id t end)
    (match p_title patch with Some v => v | None => title t end)
    (match p_status patch with Some v => v | None => status t end)
    (match p_priority patch with Some v => v | None => priority t end)
    (match p_revenue patch with Some v => v | None => revenue t end)
    (match p_timeTaken patch with Some v => v | None => timeTaken t end)
    (match p_createdAt patch with Some v => v | None => createdAt t end)
    (match p_completedAt patch with Some v => v | None => completedAt t end).

Definition set_timeTaken (v : number) (t : Task) : Task :=
  mkTask (id t) (title t) (status t) (priority t) (revenue t) v
    (createdAt t) (completedAt t).

Definition set_completedAt (v : option string) (t : Task) : Task :=
  mkTask (id t) (title t) (status t) (priority t) (revenue t) (timeTaken t)
    (createdAt t) v.

(** The function that [updateTask] maps over the collection. *)
Definition updateOne (i : string) (patch : Patch) (now : string) (t : Task) : Task :=
  if negb (String.eqb (id t) i) then t
  else
    let next := merge t patch in
    let next :=
      if (timeTaken next <=? 0)%float then set_timeTaken 1%float next else next in
    let next :=
      if negb (Status_eqb (status t) Done) && Status_eqb (status next) Done
      then set_completedAt (Some now) next
      else next in
    next.

Definition updateTask (i : string) (patch : Patch) (now : string) (s : Store) : Store :=
  setTasks (map (updateOne i patch now)) s.

(** [deleteTask]: the updater of [setTasks] also sets the undo slot, to
    the first record that carries the identifier, or to [null]. *)
Definition deleteTask (i : string) (s : Store) : Store :=
  let target := find (fun t => String.eqb (id t) i) (tasks s) in
  setTasks (filter (fun t => negb (String.eqb (id t) i))) (setLastDeleted target s).

Definition undoDelete (s : Store) : Store :=
  match lastDeleted s with
  | None => s
  | Some t => setLastDeleted None (setTasks (fun prev => prev ++ [t]) s)
  end.

Definition clearLastDeleted (s : Store) : Store :=
  setLastDeleted None s.

(** ** Sequences of operations *)

Inductive Op :=
| Add (task : NewTask) (uuid createdNow completedNow : string)
| Update (i : string) (patch : Patch) (now : string)
| Delete (i : string)
| Undo
| ClearLastDeleted.

Definition step (s : Store) (o : Op) : Store :=
  match o with
  | Add task uuid createdNow completedNow =>
      addTask task uuid createdNow completedNow s
  | Update i patch now => updateTask i patch now s
  | Delete i => deleteTask i s
  | Undo => undoDelete s
  | ClearLastDeleted => clearLastDeleted s
  end.

Definition run (s : Store) (ops : list Op) : Store := fold_left step ops s.

(** [0 < x] in JavaScript, as a proposition. *)
Definition positive (x : number) : Prop := (0 <? x)%float = true.

(** ** Sample data *)

Definition payload (i : option string) (name : string) (st : Status)
    (hours : number) : NewTask :=
  mkNewTask i name st Medium 100%float hours "" None.

Definition setStatus (st : Status) : Patch :=
  mkPatch None None (Some st) None None None None None.

Definition setTimeTaken (hours : number) : Patch :=
  mkPatch None None None None None (Some hours) None None.

Definition setCreatedAt (stamp : string) : Patch :=
  mkPatch None None None None None None (Some stamp) None.

(** A store with the two tasks [a] and [b], both open. *)
Definition twoTasks : Store :=
  run initialStore
    [ Add (payload None "Call client" Todo 2%float) "a" "09:00" "09:00";
      Add (payload None "Send quote" InProgress 3%float) "b" "09:05" "09:05" ].

(** Task [a] completed at 10:00 and reopened at 11:00. *)
Definition reopened : Store :=
  run twoTasks
    [ Update "a" (setStatus Done) "10:00";
      Update "a" (setStatus Todo) "11:00" ].

(** A generator to run the load effect with: [count] open tasks, with
    the identifiers [A], [B], ... *)
Definition sampleSeed (count : nat) : list Task :=
  map (fun k =>
         mkTask (String (Ascii.ascii_of_nat (65 + k)) "") "Generated" Todo Low
           50%float 1%float "08:00" None)
      (seq 0 count).

(** ** Properties of the store, as the specification words them *)

(** No task carries the identifier. *)
Definition absent (i : string) (s : Store) : Prop :=
  forall t, In t (tasks s) -> id t <> i.

(** An update of the task with identifier [i] keeps a [completedAt] that
    is already set. *)
Definition completedAt_kept (i : string) (patch : Patch) (now : string)
    (s : Store) : Prop :=
  forall k t c,
    nth_error (tasks s) k = Some t -> id t = i -> completedAt t = Some c ->
    exists t', nth_error (tasks (updateTask i patch now s)) k = Some t'
               /\ completedAt t' = Some c.

(** An update leaves the identifier and [createdAt] of every task as
    they were. *)
Definition update_keeps_identity (i : string) (patch : Patch) (now : string)
    (s : Store) : Prop :=
  map id (tasks (updateTask i patch now s)) = map id (tasks s)
  /\ map createdAt (tasks (updateTask i patch now s)) = map createdAt (tasks s).

(** A delete changes neither the collection nor the undo slot. *)
Definition delete_is_noop (i : string) (s : Store) : Prop :=
  tasks (deleteTask i s) = tasks s
  /\ lastDeleted (deleteTask i s) = lastDeleted s.

(** The first load leaves the generated data set in the collection. *)
Definition load_falls_back (generateSalesTasks : nat -> list Task)
    (outcome : Fetch) : Prop :=
  tasks (loadTasks generateSalesTasks true outcome initialStore)
  = generateSalesTasks 50.

(** The identifiers of the live collection are pairwise distinct. *)
Definition ids_distinct (s : Store) : Prop := NoDup (map id (tasks s)).

(** Every stored [timeTaken] is positive. *)
Definition timeTaken_positive (s : Store) : Prop :=
  Forall (fun t => positive (timeTaken t)) (tasks s).

(** The identifiers in use: those of the live collection and that of the
    record in the undo slot. *)
Definition known_ids (s : Store) : list string :=
  map id (tasks s)
  ++ match lastDeleted s with Some t => [id t] | None => [] end.

(** The identifier that [addTask] gives to the new record. *)
Definition newId (task : NewTask) (uuid : string) : string :=
  match n_id task with Some i => i | None => uuid end.

(** An operation that introduces no identifier already in use: an add
    with an unused identifier, an update whose patch has no [id] key. *)
Definition keeps_ids (s : Store) (o : Op) : Prop :=
  match o with
  | Add task uuid _ _ => ~ In (newId task uuid) (known_ids s)
  | Update _ patch _ => p_id patch = None
  | Delete _ | Undo | ClearLastDeleted => True
  end.

Fixpoint all_keep_ids (s : Store) (ops : list Op) : Prop :=
  match ops with
  | [] => True
  | o :: rest => keeps_ids s o /\ all_keep_ids (step s o) rest
  end.

(** An operation that is an add or an update. *)
Definition add_or_update (o : Op) : Prop :=
  match o with
  | Add _ _ _ _ | Update _ _ _ => True
  | _ => False
  end.

(** An operation that is not an [updateTask] with NaN as [timeTaken]:
    the patch of an update has no [timeTaken] key, or has one whose value
    is a number other than NaN. *)
Definition no_NaN_update (o : Op) : Prop :=
  match o with
  | Update _ patch _ =>
      match p_timeTaken patch with
      | Some v => is_nan v = false
      | None => True
      end
  | _ => True
  end.

(** ** More of the store *)

(** The patch [{}]. *)
Definition emptyPatch : Patch :=
  mkPatch None None None None None None None None.

(** Every stored [timeTaken] is positive, in the collection and in the
    undo slot. *)
Definition store_positive (s : Store) : Prop :=
  timeTaken_positive s
  /\ forall t, lastDeleted s = Some t -> positive (timeTaken t).

(** A task whose status is Done has a completion stamp. *)
Definition stamped (t : Task) : Prop :=
  status t = Done -> completedAt t <> None.

Definition store_stamped (s : Store) : Prop :=
  Forall stamped (tasks s)
  /\ forall t, lastDeleted s = Some t -> stamped t.

(** An operation that does not hand a [completedAt] key to
    [updateTask]. *)
Definition no_completedAt_key (o : Op) : Prop :=
  match o with
  | Update _ patch _ => p_completedAt patch = None
  | _ => True
  end.

(** ** The view of [App.tsx] *)

(** The strings that the statuses and the priorities are at run time. *)
Definition Status_label (st : Status) : string :=
  match st with
  | Todo => "Todo"
  | InProgress => "In Progress"
  | Done => "Done"
  end.

Definition Priority_label (p : Priority) : string :=
  match p with
  | High => "High"
  | Medium => "Medium"
  | Low => "Low"
  end.

(** A string as a condition: the empty string is falsy. *)
Definition truthy (s : string) : bool := negb (String.eqb s "").

(** [s.includes(sub)] *)
Fixpoint includes (s sub : string) : bool :=
  if String.prefix sub s then true
  else
    match s with
    | EmptyString => false
    | String _ rest => includes rest sub
    end.

(** The callback of the [filteredTasks] memo; [toLowerCase] is the method
    of the language. *)
Definition matchesFilters (toLowerCase : string -> string)
    (query statusFilter priorityFilter : string) (task : Task) : bool :=
  if truthy query
     && negb (includes (toLowerCase (title task)) (toLowerCase query))
  then false
  else if negb (String.eqb statusFilter "All")
          && negb (String.eqb (Status_label (status task)) statusFilter)
  then false
  else if negb (String.eqb priorityFilter "All")
          && negb (String.eqb (Priority_label (priority task)) priorityFilter)
  then false
  else true.

(** The [filteredTasks] memo.  A derived task is a task with more
    fields; [base] gives the fields of the task. *)
Definition filteredTasks {DerivedTask : Type} (base : DerivedTask -> Task)
    (toLowerCase : string -> string) (derivedSorted : list DerivedTask)
    (query statusFilter priorityFilter : string) : list DerivedTask :=
  filter
    (fun task =>
       matchesFilters toLowerCase query statusFilter priorityFilter (base task))
    derivedSorted.

(** The three conditions of the callback, one by one. *)
Definition matchesQuery (toLowerCase : string -> string) (query : string)
    (task : Task) : bool :=
  negb (truthy query) || includes (toLowerCase (title task)) (toLowerCase query).

Definition matchesStatus (statusFilter : string) (task : Task) : bool :=
  String.eqb statusFilter "All"
  || String.eqb (Status_label (status task)) statusFilter.

Definition matchesPriority (priorityFilter : string) (task : Task) : bool :=
  String.eqb priorityFilter "All"
  || String.eqb (Priority_label (priority task)) priorityFilter.

(** What the page shows: the table, the charts and the log are rendered
    under [!loading && !error], the alert under [error], and the undo
    snackbar is open under [!!lastDeleted]. *)
Definition truthyError (e : option string) : bool :=
  match e with
  | Some m => truthy m
  | None => false
  end.

Definition contentVisible (s : Store) : bool :=
  negb (loading s) && negb (truthyError (error s)).

Definition alertVisible (s : Store) : bool := truthyError (error s).

Definition snackbarOpen (s : Store) : bool :=
  match lastDeleted s with
  | Some _ => true
  | None => false
  end.

(** *** The activity log *)

Inductive ActivityType := ActAdd | ActUpdate | ActDelete | ActUndo.

(** The record that [createActivity] builds. *)
Record ActivityItem := mkActivityItem {
  a_id : string;
  a_ts : number;
  a_type : ActivityType;
  a_summary : string
}.

(** [createActivity]; the identifier and [Date.now()] come from the
    environment. *)
Definition createActivity (logId : string) (logNow : number)
    (type : ActivityType) (summary : string) : ActivityItem :=
  mkActivityItem logId logNow type summary.

(** [prev => [item, ...prev].slice(0, 50)] *)
Definition logActivity (item : ActivityItem) (prev : list ActivityItem)
  : list ActivityItem :=
  firstn 50 (item :: prev).

(** [Omit<Task, 'id'>], the argument of [handleAdd]. *)
Record TaskFields := mkTaskFields {
  f_title : string;
  f_status : Status;
  f_priority : Priority;
  f_revenue : number;
  f_timeTaken : number;
  f_createdAt : string;
  f_completedAt : option string
}.

Definition asNewTask (payload : TaskFields) : NewTask :=
  mkNewTask None (f_title payload) (f_status payload) (f_priority payload)
    (f_revenue payload) (f_timeTaken payload) (f_createdAt payload)
    (f_completedAt payload).

(** The state that the handlers of [AppContent] change. *)
Record AppState := mkAppState {
  store : Store;
  activity : list ActivityItem
}.

Definition handleAdd (payload : TaskFields) (uuid createdNow completedNow : string)
    (logId : string) (logNow : number) (app : AppState) : AppState :=
  mkAppState
    (addTask (asNewTask payload) uuid createdNow completedNow (store app))
    (logActivity
       (createActivity logId logNow ActAdd
          (String.append "Added task: " (f_title payload)))
       (activity app)).

Definition handleUpdate (i : string) (patch : Patch) (now : string)
    (logId : string) (logNow : number) (app : AppState) : AppState :=
  mkAppState
    (updateTask i patch now (store app))
    (logActivity
       (createActivity logId logNow ActUpdate (String.append "Updated task: " i))
       (activity app)).

Definition handleDelete (i : string)
    (logId : string) (logNow : number) (app : AppState) : AppState :=
  mkAppState
    (deleteTask i (store app))
    (logActivity
       (createActivity logId logNow ActDelete (String.append "Deleted task: " i))
       (activity app)).

Definition handleUndo (logId : string) (logNow : number) (app : AppState)
  : AppState :=
  mkAppState
    (undoDelete (store app))
    (logActivity (createActivity logId logNow ActUndo "Undo delete")
       (activity app)).

Definition handleCloseUndo (app : AppState) : AppState :=
  mkAppState (clearLastDeleted (store app)) (activity app).

(** The events of the page that reach a handler. *)
Inductive Event :=
| EvAdd (payload : TaskFields) (uuid createdNow completedNow : string)
        (logId : string) (logNow : number)
| EvUpdate (i : string) (patch : Patch) (now : string)
           (logId : string) (logNow : number)
| EvDelete (i : string) (logId : string) (logNow : number)
| EvUndo (logId : string) (logNow : number)
| EvCloseUndo.

Definition handle (app : AppState) (e : Event) : AppState :=
  match e with
  | EvAdd payload uuid createdNow completedNow logId logNow =>
      handleAdd payload uuid createdNow completedNow logId logNow app
  | EvUpdate i patch now logId logNow =>
      handleUpdate i patch now logId logNow app
  | EvDelete i logId logNow => handleDelete i logId logNow app
  | EvUndo logId logNow => handleUndo logId logNow app
  | EvCloseUndo => handleCloseUndo app
  end.

Definition runApp (app : AppState) (events : list Event) : AppState :=
  fold_left handle events app.

(** The store operation that the handler of an event calls. *)
Definition opOf (e : Event) : Op :=
  match e with
  | EvAdd payload uuid createdNow completedNow _ _ =>
      Add (asNewTask payload) uuid createdNow completedNow
  | EvUpdate i patch now _ _ => Update i patch now
  | EvDelete i _ _ => Delete i
  | EvUndo _ _ => Undo
  | EvCloseUndo => ClearLastDeleted
  end.

(** The log entry that the handler of an event writes, if any. *)
Definition entryOf (e : Event) : list ActivityItem :=
  match e with
  | EvAdd payload _ _ _ logId logNow =>
      [createActivity logId logNow ActAdd
         (String.append "Added task: " (f_title payload))]
  | EvUpdate i _ _ logId logNow =>
      [createActivity logId logNow ActUpdate (String.append "Updated task: " i)]
  | EvDelete i logId logNow =>
      [createActivity logId logNow ActDelete (String.append "Deleted task: " i)]
  | EvUndo logId logNow =>
      [createActivity logId logNow ActUndo "Undo delete"]
  | EvCloseUndo => []
  end.

(** The entries of a sequence of events, the oldest first. *)
Definition entriesOf (events : list Event) : list ActivityItem :=
  flat_map entryOf events.

(** The opening state of the page. *)
Definition initialApp : AppState := mkAppState initialStore [].

(** The message of the exception, if [fetch] or [res.json()] threw. *)
Definition thrown (outcome : Fetch) : option (option string) :=
  match outcome with
  | FetchRejects m => Some m
  | FetchResponse true (BodyThrows m) => Some m
  | _ => None
  end.

(** A lower-case function to run the filters with: the letters A to Z
    are mapped to a to z, every other character is kept. *)
Definition lowerAscii (c : Ascii.ascii) : Ascii.ascii :=
  let n := Ascii.nat_of_ascii c in
  if Nat.leb 65 n && Nat.leb n 90 then Ascii.ascii_of_nat (n + 32) else c.

Fixpoint lowerString (s : string) : string :=
  match s with
  | EmptyString => EmptyString
  | String c rest => String (lowerAscii c) (lowerString rest)
  end.

(** ** The second delete, as the specification words it *)

(** After [deleteTask] of [A], [deleteTask] of [B] and [undoDelete], [B]
    is back in the collection, [A] is not in it, and the undo slot is
    empty. *)
Definition undo_restores_second (s : Store) (A B : Task) : Prop :=
  let s3 := undoDelete (deleteTask (id B) (deleteTask (id A) s)) in
  In B (tasks s3) /\ ~ In A (tasks s3) /\ lastDeleted s3 = None.

(** The store [twoTasks] after an add with the supplied identifier [a]:
    the collection holds two tasks with that identifier. *)
Definition twoWithSameId : Store :=
  run twoTasks
    [ Add (payload (Some "a") "Call client again" Todo 1%float)
          "u3" "09:30" "09:30" ].

Definition firstA : Task :=
  mkTask "a" "Call client" Todo Medium 100%float 2%float "09:00" None.

Definition secondA : Task :=
  mkTask "a" "Call client again" Todo Medium 100%float 1%float "09:30" None.
(** ** Comparisons of numbers *)

Lemma positive_one : positive 1%float.
Proof. reflexivity. Qed.

Lemma nan_not_positive : ~ positive nan.
Proof. unfold positive. cbv. discriminate. Qed.

(** A number that is not NaN and fails [x <= 0] is positive. *)
Lemma not_leb_zero_positive (x : number) :
  is_nan x = false -> (x <=? 0)%float = false -> positive x.
Proof.
  unfold positive, is_nan.
  rewrite eqb_spec, leb_spec, ltb_spec.
  change (Prim2SF 0%float) with (S754_zero false).
  destruct (Prim2SF x) as [sg | sg | | sg m e]; try destruct sg; cbn; congruence.
Qed.

(** A positive number is not NaN. *)
Lemma positive_not_nan (x : number) : positive x -> is_nan x = false.
Proof.
  unfold positive, is_nan.
  rewrite eqb_spec, ltb_spec.
  change (Prim2SF 0%float) with (S754_zero false).
  destruct (Prim2SF x) as [sg | sg | | sg m e]; try destruct sg; cbn; try congruence.
  all: intros _; rewrite ?Pos.compare_refl, ?Z.compare_refl; cbn;
       rewrite ?Pos.compare_refl, ?Z.compare_refl; reflexivity.
Qed.

(** ** Facts about the operations *)

Lemma tasks_updateTask (i : string) (patch : Patch) (now : string) (s : Store) :
  tasks (updateTask i patch now s) = map (updateOne i patch now) (tasks s).
Proof. reflexivity. Qed.

Lemma lastDeleted_updateTask (i : string) (patch : Patch) (now : string) (s : Store) :
  lastDeleted (updateTask i patch now s) = lastDeleted s.
Proof. reflexivity. Qed.

Lemma tasks_addTask (task : NewTask) (uuid c1 c2 : string) (s : Store) :
  tasks (addTask task uuid c1 c2 s) = tasks s ++ [newTask task uuid c1 c2].
Proof. reflexivity. Qed.

Lemma tasks_deleteTask (i : string) (s : Store) :
  tasks (deleteTask i s) = filter (fun t => negb (String.eqb (id t) i)) (tasks s).
Proof. reflexivity. Qed.

Lemma lastDeleted_deleteTask (i : string) (s : Store) :
  lastDeleted (deleteTask i s) = find (fun t => String.eqb (id t) i) (tasks s).
Proof. reflexivity. Qed.

Lemma updateOne_other (i : string) (patch : Patch) (now : string) (t : Task) :
  id t <> i -> updateOne i patch now t = t.
Proof.
  intros Hne. unfold updateOne.
  destruct (String.eqb_spec (id t) i) as [Heq | _]; [contradiction | reflexivity].
Qed.

(** The record that [updateTask] stores for a task carrying the
    identifier: the merge, with the two adjustments. *)
Lemma updateOne_same (i : string) (patch : Patch) (now : string) (t : Task) :
  id t = i ->
  updateOne i patch now t =
    let next := merge t patch in
    let next :=
      if (timeTaken next <=? 0)%float then set_timeTaken 1%float next else next in
    if negb (Status_eqb (status t) Done) && Status_eqb (status next) Done
    then set_completedAt (Some now) next
    else next.
Proof.
  intros Heq. unfold updateOne. rewrite Heq, String.eqb_refl. reflexivity.
Qed.

Lemma status_clamp (t : Task) :
  status (if (timeTaken t <=? 0)%float then set_timeTaken 1%float t else t) = status t.
Proof. destruct (timeTaken t <=? 0)%float; reflexivity. Qed.

Lemma completedAt_clamp (t : Task) :
  completedAt (if (timeTaken t <=? 0)%float then set_timeTaken 1%float t else t)
  = completedAt t.
Proof. destruct (timeTaken t <=? 0)%float; reflexivity. Qed.

Lemma id_updateOne (i : string) (patch : Patch) (now : string) (t : Task) :
  p_id patch = None -> id (updateOne i patch now t) = id t.
Proof.
  intros Hid. unfold updateOne, merge. rewrite Hid.
  destruct (negb (String.eqb (id t) i)); [reflexivity |]. cbn.
  destruct (_ <=? 0)%float; cbn; destruct (_ && _); reflexivity.
Qed.

Lemma createdAt_updateOne (i : string) (patch : Patch) (now : string) (t : Task) :
  p_createdAt patch = None -> createdAt (updateOne i patch now t) = createdAt t.
Proof.
  intros Hc. unfold updateOne, merge. rewrite Hc.
  destruct (negb (String.eqb (id t) i)); [reflexivity |]. cbn.
  destruct (_ <=? 0)%float; cbn; destruct (_ && _); reflexivity.
Qed.

(** The value of [completedAt] after an update of the task itself. *)
Lemma completedAt_updateOne (patch : Patch) (now : string) (t : Task) :
  completedAt (updateOne (id t) patch now t) =
    if negb (Status_eqb (status t) Done) && Status_eqb (status (merge t patch)) Done
    then Some now
    else completedAt (merge t patch).
Proof.
  rewrite updateOne_same by reflexivity. cbv zeta.
  rewrite status_clamp.
  destruct (negb (Status_eqb (status t) Done) && Status_eqb (status (merge t patch)) Done).
  - reflexivity.
  - apply completedAt_clamp.
Qed.

(** ** Updates *)

(** C10. [updateTask] keeps the number of tasks and their positions: the
    task at each position is the image of the task that was there, and a
    task whose identifier differs from the given one is unchanged in all
    its fields. *)
Theorem updateTask_frame (i : string) (patch : Patch) (now : string) (s : Store) :
  List.length (tasks (updateTask i patch now s)) = List.length (tasks s)
  /\ (forall k,
        nth_error (tasks (updateTask i patch now s)) k
        = option_map (updateOne i patch now) (nth_error (tasks s) k))
  /\ (forall k t,
        nth_error (tasks s) k = Some t -> id t <> i ->
        nth_error (tasks (updateTask i patch now s)) k = Some t).
Proof.
  rewrite tasks_updateTask. split; [apply length_map |]. split.
  - intros k. apply nth_error_map.
  - intros k t Hk Hne. rewrite nth_error_map, Hk. cbn.
    now rewrite updateOne_other.
Qed.

(** C8, as amended. [updateTask] with a patch that has neither an [id]
    key nor a [createdAt] key leaves the identifier and [createdAt] of
    every task of the collection as they were. *)
Theorem updateTask_keeps_identity (i : string) (patch : Patch) (now : string)
    (s : Store) :
  p_id patch = None -> p_createdAt patch = None ->
  update_keeps_identity i patch now s.
Proof.
  intros Hid Hc. unfold update_keeps_identity.
  rewrite tasks_updateTask, !map_map. split; apply map_ext; intros t.
  - now apply id_updateOne.
  - now apply createdAt_updateOne.
Qed.

Lemma updateTask_keeps_identity_witness :
  update_keeps_identity "a" (setStatus Done) "10:00" twoTasks.
Proof. apply updateTask_keeps_identity; reflexivity. Defined.

(** C8 fails as stated: a patch with a [createdAt] key rewrites the
    creation stamp of the task. *)
Lemma updateTask_rewrites_createdAt :
  ~ update_keeps_identity "a" (setCreatedAt "1999-01-01") "10:00" twoTasks.
Proof. intros [_ H]. vm_compute in H. discriminate H. Qed.

(** C1, as amended.  [addTask] appends a record whose [completedAt] is
    the current time if the status is Done and is absent otherwise.
    [updateTask], with a patch that has no [completedAt] key, stamps
    [completedAt] with the current time whenever the status goes from a
    value other than Done to Done, also when a stamp is already there,
    and in every other case leaves [completedAt] as it was. *)
Theorem completedAt_stamped_on_entering_Done :
  (forall task uuid createdNow completedNow s,
      tasks (addTask task uuid createdNow completedNow s)
      = tasks s ++ [newTask task uuid createdNow completedNow]
      /\ completedAt (newTask task uuid createdNow completedNow)
         = if Status_eqb (n_status task) Done then Some completedNow else None)
  /\ (forall i patch now s k t,
      nth_error (tasks s) k = Some t -> id t = i ->
      p_completedAt patch = None ->
      exists t',
        nth_error (tasks (updateTask i patch now s)) k = Some t'
        /\ completedAt t'
           = if negb (Status_eqb (status t) Done)
                && Status_eqb (status (merge t patch)) Done
             then Some now
             else completedAt t).
Proof.
  split.
  - intros. split; reflexivity.
  - intros i patch now s k t Hk Hi Hp.
    exists (updateOne i patch now t). split.
    + rewrite tasks_updateTask, nth_error_map, Hk. reflexivity.
    + subst i. rewrite completedAt_updateOne.
      destruct (_ && _); [reflexivity |].
      unfold merge. cbn. now rewrite Hp.
Qed.

Lemma completedAt_stamped_on_entering_Done_witness :
  exists t',
    nth_error (tasks (updateTask "a" (setStatus Done) "12:00" reopened)) 0 = Some t'
    /\ completedAt t' = Some "12:00".
Proof.
  destruct completedAt_stamped_on_entering_Done as [_ H].
  exact (H "a" (setStatus Done) "12:00" reopened 0%nat _ eq_refl eq_refl eq_refl).
Defined.

(** C1 fails as stated: task [a], completed at 10:00 and reopened, gets
    a new [completedAt] when it is set to Done again. *)
Lemma completedAt_overwritten_after_reopen :
  ~ completedAt_kept "a" (setStatus Done) "12:00" reopened.
Proof.
  intros H.
  destruct (H 0%nat _ "10:00" eq_refl eq_refl eq_refl) as [t' [Hk Hc]].
  vm_compute in Hk. injection Hk as <-. discriminate Hc.
Qed.

(** ** Lookup and removal by identifier *)

Section ById.

Variable i : string.

Lemma find_id_none (l : list Task) :
  (forall t, In t l -> id t <> i) ->
  find (fun t => String.eqb (id t) i) l = None.
Proof.
  induction l as [| u l IH]; intros Habs; [reflexivity |]. cbn.
  destruct (String.eqb_spec (id u) i) as [Heq | _].
  - exfalso. apply (Habs u); [now left | exact Heq].
  - apply IH. intros t Ht. apply Habs. now right.
Qed.

Lemma filter_id_all (l : list Task) :
  (forall t, In t l -> id t <> i) ->
  filter (fun t => negb (String.eqb (id t) i)) l = l.
Proof.
  induction l as [| u l IH]; intros Habs; [reflexivity |]. cbn.
  destruct (String.eqb_spec (id u) i) as [Heq | _].
  - exfalso. apply (Habs u); [now left | exact Heq].
  - cbn. f_equal. apply IH. intros t Ht. apply Habs. now right.
Qed.

Lemma find_id_some (l : list Task) :
  In i (map id l) ->
  exists t, find (fun t => String.eqb (id t) i) l = Some t /\ In t l /\ id t = i.
Proof.
  induction l as [| u l IH]; cbn; [contradiction |].
  intros Hin.
  destruct (String.eqb_spec (id u) i) as [Heq | Hne].
  - exists u. auto.
  - destruct Hin as [Heq | Hin]; [contradiction |].
    destruct (IH Hin) as [t [Hf [Ht Hi]]]. exists t. auto.
Qed.

Lemma filter_id_gone (l : list Task) (t : Task) :
  In t (filter (fun t => negb (String.eqb (id t) i)) l) -> id t <> i.
Proof.
  intros Hin. apply filter_In in Hin. destruct Hin as [_ Hb]. cbn in Hb.
  destruct (String.eqb_spec (id t) i); [discriminate | assumption].
Qed.

Lemma filter_id_keeps (l : list Task) (t : Task) :
  In t l -> id t <> i -> In t (filter (fun t => negb (String.eqb (id t) i)) l).
Proof.
  intros Hin Hne. apply filter_In. split; [assumption |].
  now destruct (String.eqb_spec (id t) i).
Qed.

End ById.

Lemma NoDup_ids_filter (f : Task -> bool) (l : list Task) :
  NoDup (map id l) -> NoDup (map id (filter f l)).
Proof.
  induction l as [| u l IH]; cbn; intros Hnd; [constructor |].
  inversion Hnd as [| x xs Hnotin Hnd']; subst.
  destruct (f u); cbn; [| now apply IH].
  constructor; [| now apply IH].
  intros Hin. apply Hnotin. apply in_map_iff in Hin.
  destruct Hin as [v [Hv Hin]]. apply filter_In in Hin.
  apply in_map_iff. exists v. tauto.
Qed.

(** In a collection with distinct identifiers the lookup of the
    identifier of a task of the collection finds that task. *)
Lemma find_own_id (l : list Task) (t : Task) :
  NoDup (map id l) -> In t l ->
  find (fun u => String.eqb (id u) (id t)) l = Some t.
Proof.
  induction l as [| u l IH]; cbn; intros Hnd Hin; [contradiction |].
  inversion Hnd as [| x xs Hnotin Hnd']; subst.
  destruct (String.eqb_spec (id u) (id t)) as [Heq | Hne].
  - destruct Hin as [-> | Hin]; [reflexivity |].
    exfalso. apply Hnotin. rewrite Heq. now apply in_map.
  - destruct Hin as [-> | Hin]; [contradiction |]. now apply IH.
Qed.

Lemma distinct_tasks_distinct_ids (l : list Task) (a b : Task) :
  NoDup (map id l) -> In a l -> In b l -> a <> b -> id a <> id b.
Proof.
  intros Hnd Ha Hb Hab Heq. apply Hab.
  pose proof (find_own_id l a Hnd Ha) as Fa.
  pose proof (find_own_id l b Hnd Hb) as Fb.
  rewrite Heq in Fa. congruence.
Qed.

(** ** The undo slot *)

(** C2, as amended.  For an identifier that no task of the collection
    carries, [deleteTask] leaves the collection as it was and empties the
    undo slot, whatever the slot held. *)
Theorem deleteTask_absent (i : string) (s : Store) :
  absent i s ->
  tasks (deleteTask i s) = tasks s /\ lastDeleted (deleteTask i s) = None.
Proof.
  intros Habs. rewrite tasks_deleteTask, lastDeleted_deleteTask. split.
  - now apply filter_id_all.
  - now apply find_id_none.
Qed.

Lemma deleteTask_absent_witness :
  tasks (deleteTask "zz" (deleteTask "a" twoTasks)) = tasks (deleteTask "a" twoTasks)
  /\ lastDeleted (deleteTask "zz" (deleteTask "a" twoTasks)) = None.
Proof.
  apply deleteTask_absent.
  intros t Hin. vm_compute in Hin.
  destruct Hin as [<- | []]. cbn. discriminate.
Defined.

(** C2 fails as stated: after task [a] is deleted the undo slot holds it,
    and the delete of an identifier that is not in the collection empties
    the slot. *)
Lemma deleteTask_absent_clears_slot :
  absent "zz" (deleteTask "a" twoTasks)
  /\ ~ delete_is_noop "zz" (deleteTask "a" twoTasks).
Proof.
  split.
  - intros t Hin. vm_compute in Hin. destruct Hin as [<- | []]. cbn. discriminate.
  - intros [_ H]. vm_compute in H. discriminate H.
Qed.



(** C5, as amended.  In a collection with distinct identifiers, for two
    distinct tasks [A] and [B] of the collection: after [deleteTask] of
    [A] and then of [B] the undo slot holds [B]; [undoDelete] then appends
    [B] and nothing else, empties the slot, and a further [undoDelete]
    changes nothing.  [A] is in neither the collection nor the slot, and
    no task of the collection carries its identifier. *)
Theorem second_delete_discards_first (s : Store) (A B : Task) :
  NoDup (map id (tasks s)) -> In A (tasks s) -> In B (tasks s) -> A <> B ->
  let s2 := deleteTask (id B) (deleteTask (id A) s) in
  let s3 := undoDelete s2 in
  lastDeleted s2 = Some B
  /\ ~ In A (tasks s2) /\ ~ In B (tasks s2)
  /\ tasks s3 = tasks s2 ++ [B]
  /\ lastDeleted s3 = None
  /\ ~ In A (tasks s3)
  /\ (forall t, In t (tasks s3) -> id t <> id A)
  /\ undoDelete s3 = s3.
Proof.
  intros Hnd HA HB HAB s2 s3.
  assert (Hids : id A <> id B)
    by (apply (distinct_tasks_distinct_ids (tasks s)); assumption).
  assert (Hslot : lastDeleted s2 = Some B).
  { unfold s2. rewrite lastDeleted_deleteTask, tasks_deleteTask.
    apply find_own_id.
    - now apply NoDup_ids_filter.
    - apply filter_id_keeps; [assumption | congruence]. }
  assert (Hundo : s3 = setLastDeleted None (setTasks (fun prev => prev ++ [B]) s2))
    by (unfold s3, undoDelete; now rewrite Hslot).
  clearbody s3.
  assert (HgoneA : forall t, In t (tasks s2) -> id t <> id A).
  { intros t Ht. unfold s2 in Ht. rewrite tasks_deleteTask in Ht.
    apply filter_In in Ht. destruct Ht as [Ht _].
    rewrite tasks_deleteTask in Ht. now apply filter_id_gone in Ht. }
  assert (HgoneB : forall t, In t (tasks s2) -> id t <> id B).
  { intros t Ht. unfold s2 in Ht. rewrite tasks_deleteTask in Ht.
    now apply filter_id_gone in Ht. }
  assert (Hall : forall t, In t (tasks s3) -> id t <> id A).
  { intros t Ht. rewrite Hundo in Ht. cbn in Ht.
    apply in_app_or in Ht. destruct Ht as [Ht | [<- | []]].
    - now apply HgoneA.
    - congruence. }
  repeat split.
  - exact Hslot.
  - intros Hin. now apply (HgoneA A).
  - intros Hin. now apply (HgoneB B).
  - now rewrite Hundo.
  - now rewrite Hundo.
  - intros Hin. now apply (Hall A).
  - exact Hall.
  - now rewrite Hundo.
Qed.

Lemma second_delete_discards_first_witness :
  let A := mkTask "a" "Call client" Todo Medium 100%float 2%float "09:00" None in
  let B := mkTask "b" "Send quote" InProgress Medium 100%float 3%float "09:05" None in
  let s2 := deleteTask (id B) (deleteTask (id A) twoTasks) in
  let s3 := undoDelete s2 in
  lastDeleted s2 = Some B
  /\ ~ In A (tasks s2) /\ ~ In B (tasks s2)
  /\ tasks s3 = tasks s2 ++ [B]
  /\ lastDeleted s3 = None
  /\ ~ In A (tasks s3)
  /\ (forall t, In t (tasks s3) -> id t <> id A)
  /\ undoDelete s3 = s3.
Proof.
  intros A B. apply (second_delete_discards_first twoTasks A B).
  - vm_compute. repeat constructor; cbn; intuition discriminate.
  - vm_compute. left. reflexivity.
  - vm_compute. right. left. reflexivity.
  - discriminate.
Defined.

(** C5 fails as stated: the collection can hold two distinct tasks with
    one identifier, and then the first delete removes both, the second
    finds nothing and empties the undo slot, and [undoDelete] restores
    nothing: the second task is not back in the collection. *)
Lemma second_delete_with_shared_id_restores_nothing :
  In firstA (tasks twoWithSameId)
  /\ In secondA (tasks twoWithSameId)
  /\ firstA <> secondA
  /\ ~ undo_restores_second twoWithSameId firstA secondA.
Proof.
  repeat split.
  - vm_compute. left. reflexivity.
  - vm_compute. right. right. left. reflexivity.
  - discriminate.
  - intros [Hin _]. vm_compute in Hin.
    destruct Hin as [Hb | []]. discriminate Hb.
Qed.

(** ** The first load *)

(** C3, as amended.  With the component mounted: a response that is not
    ok, a parsed value that is not an array and an empty array put
    [generateSalesTasks(50)] in the collection; a non-empty array is
    taken as it is; when [fetch] rejects or [res.json()] throws the error
    string is set and the collection is left as it was, which for the
    first render is the empty array.  In every case [loading] ends
    false. *)
Theorem loadTasks_outcomes (generateSalesTasks : nat -> list Task) (s : Store) :
  let load := loadTasks generateSalesTasks true in
  (forall body, tasks (load (FetchResponse false body) s) = generateSalesTasks 50)
  /\ tasks (load (FetchResponse true (BodyJson JOther)) s) = generateSalesTasks 50
  /\ tasks (load (FetchResponse true (BodyJson (JArray []))) s)
     = generateSalesTasks 50
  /\ (forall t l,
        tasks (load (FetchResponse true (BodyJson (JArray (t :: l)))) s) = t :: l)
  /\ (forall m,
        tasks (load (FetchRejects m) s) = tasks s
        /\ error (load (FetchRejects m) s) = Some (errorMessage m)
        /\ tasks (load (FetchRejects m) initialStore) = [])
  /\ (forall m,
        tasks (load (FetchResponse true (BodyThrows m)) s) = tasks s
        /\ error (load (FetchResponse true (BodyThrows m)) s)
           = Some (errorMessage m)
        /\ tasks (load (FetchResponse true (BodyThrows m)) initialStore) = [])
  /\ (forall outcome, loading (load outcome s) = false).
Proof.
  cbv zeta. repeat split; try reflexivity.
  intros outcome. destruct outcome as [m | ok body]; [reflexivity |].
  destruct ok; [| reflexivity]. destruct body; reflexivity.
Qed.

(** C3 fails as stated: when [fetch] rejects, and when the body does not
    parse, the collection stays empty. *)
Lemma loadTasks_failure_leaves_empty :
  ~ load_falls_back sampleSeed (FetchRejects (Some "Failed to fetch"))
  /\ ~ load_falls_back sampleSeed
         (FetchResponse true (BodyThrows (Some "Unexpected token < in JSON"))).
Proof.
  split; intros H; vm_compute in H; discriminate H.
Qed.

(** ** Metrics *)

(** C9.  For the empty collection the [metrics] memo is
    [INITIAL_METRICS]: the five numbers are 0, none of them NaN, and the
    grade is the default label. *)
Theorem metrics_empty (L : Logic) :
  let m := metrics L [] in
  m = INITIAL_METRICS
  /\ totalRevenue m = 0%float
  /\ totalTimeTaken m = 0%float
  /\ timeEfficiencyPct m = 0%float
  /\ revenuePerHour m = 0%float
  /\ averageROI m = 0%float
  /\ performanceGrade m = "Needs Improvement"
  /\ forallb (fun x => negb (is_nan x))
       [totalRevenue m; totalTimeTaken m; timeEfficiencyPct m;
        revenuePerHour m; averageROI m] = true.
Proof. cbv zeta. repeat split. Qed.

(** ** Distinct identifiers *)

Lemma ids_updateTask (i : string) (patch : Patch) (now : string) (s : Store) :
  p_id patch = None ->
  map id (tasks (updateTask i patch now s)) = map id (tasks s).
Proof.
  intros Hid. rewrite tasks_updateTask, map_map.
  apply map_ext. intros t. now apply id_updateOne.
Qed.

Lemma NoDup_snoc (l : list string) (x : string) :
  NoDup l -> ~ In x l -> NoDup (l ++ [x]).
Proof.
  intros Hnd Hx. apply (Permutation_NoDup (Permutation_cons_append l x)).
  now constructor.
Qed.

(** One operation that introduces no identifier in use keeps the
    identifiers of the collection and of the undo slot distinct. *)
Lemma step_keeps_known_ids (s : Store) (o : Op) :
  NoDup (known_ids s) -> keeps_ids s o -> NoDup (known_ids (step s o)).
Proof.
  intros Hnd Hk. destruct o as [task uuid c1 c2 | i patch now | i | |]; cbn in Hk.
  - unfold known_ids in *. cbn [step]. rewrite tasks_addTask.
    change (lastDeleted (addTask task uuid c1 c2 s)) with (lastDeleted s).
    rewrite map_app, <- app_assoc. cbn.
    apply (Permutation_NoDup (Permutation_middle _ _ _)).
    now constructor.
  - unfold known_ids in *. cbn [step].
    now rewrite ids_updateTask, lastDeleted_updateTask.
  - unfold known_ids in *. cbn [step].
    rewrite tasks_deleteTask, lastDeleted_deleteTask.
    apply NoDup_app_remove_r in Hnd.
    pose proof (NoDup_ids_filter (fun t => negb (String.eqb (id t) i)) (tasks s) Hnd)
      as Hf.
    destruct (find _ (tasks s)) as [t |] eqn:Hfind.
    + apply NoDup_snoc; [exact Hf |].
      apply find_some in Hfind. destruct Hfind as [_ Hi].
      apply String.eqb_eq in Hi.
      intros Hin. apply in_map_iff in Hin. destruct Hin as [u [Hu Hin]].
      apply filter_id_gone in Hin. congruence.
    + now rewrite app_nil_r.
  - unfold known_ids in *. cbn [step]. unfold undoDelete.
    destruct (lastDeleted s) as [t |] eqn:Hslot.
    + cbn. now rewrite map_app, app_nil_r.
    + now rewrite Hslot.
  - unfold known_ids in *. cbn. rewrite app_nil_r.
    now apply NoDup_app_remove_r in Hnd.
Qed.

Lemma run_keeps_known_ids (ops : list Op) :
  forall s, NoDup (known_ids s) -> all_keep_ids s ops ->
            NoDup (known_ids (run s ops)).
Proof.
  induction ops as [| o ops IH]; intros s Hnd Hall; [exact Hnd |].
  destruct Hall as [Hk Hall]. cbn. apply IH; [| exact Hall].
  now apply step_keeps_known_ids.
Qed.

(** C7, as amended.  From a store in which the identifiers of the
    collection and of the undo slot are distinct, as in the first render,
    the identifiers of the live collection are distinct after every
    sequence of operations in which each [addTask] gets an identifier,
    supplied or generated, that neither a task of the collection nor the
    record in the undo slot carries, and each [updateTask] gets a patch
    without an [id] key. *)
Theorem ids_stay_distinct (s : Store) (ops : list Op) :
  NoDup (known_ids s) -> all_keep_ids s ops -> ids_distinct (run s ops).
Proof.
  intros Hnd Hall. unfold ids_distinct.
  apply (NoDup_app_remove_r _ _ (run_keeps_known_ids ops s Hnd Hall)).
Qed.

Lemma ids_stay_distinct_witness :
  ids_distinct
    (run initialStore
       [ Add (payload (Some "a") "Call client" Todo 2%float) "u1" "09:00" "09:00";
         Add (payload None "Send quote" Done 3%float) "u2" "09:05" "09:05";
         Delete "a";
         Update "u2" (setStatus Todo) "09:10";
         Undo ]).
Proof.
  apply ids_stay_distinct.
  - constructor.
  - cbn. repeat split; try reflexivity; intuition discriminate.
Defined.

(** C7 fails as stated: [addTask] with a supplied identifier that a task
    of the collection carries stores a second task with that
    identifier. *)
Lemma addTask_supplied_id_duplicates :
  ~ ids_distinct
      (run twoTasks
         [ Add (payload (Some "a") "Call client again" Todo 1%float)
               "u3" "09:30" "09:30" ]).
Proof.
  intros H. vm_compute in H.
  inversion H as [| x l Hnotin _]. apply Hnotin. right. left. reflexivity.
Qed.

(** ** The stored [timeTaken] *)

Lemma newTask_positive (task : NewTask) (uuid c1 c2 : string) :
  positive (timeTaken (newTask task uuid c1 c2)).
Proof.
  unfold positive. cbn.
  destruct (0 <? n_timeTaken task)%float eqn:E; [exact E | reflexivity].
Qed.

(** [updateTask] coerces a merged [timeTaken] that is 0 or below to 1. *)
Lemma updateOne_coerces (patch : Patch) (now : string) (t : Task) :
  (timeTaken (merge t patch) <=? 0)%float = true ->
  timeTaken (updateOne (id t) patch now t) = 1%float.
Proof.
  intros Hle. rewrite updateOne_same by reflexivity. cbv zeta. rewrite Hle.
  destruct (_ && _); reflexivity.
Qed.

Lemma updateOne_positive (i : string) (patch : Patch) (now : string) (t : Task) :
  positive (timeTaken t) ->
  no_NaN_update (Update i patch now) ->
  positive (timeTaken (updateOne i patch now t)).
Proof.
  intros Hpos Hnan. unfold updateOne.
  destruct (negb (String.eqb (id t) i)); [exact Hpos |]. cbv zeta.
  assert (Hm : is_nan (timeTaken (merge t patch)) = false).
  { cbn in *. destruct (p_timeTaken patch) as [v |]; [exact Hnan |].
    now apply positive_not_nan. }
  destruct (timeTaken (merge t patch) <=? 0)%float eqn:Hle;
    destruct (_ && _); cbn; try apply positive_one;
    now apply not_leb_zero_positive.
Qed.

Lemma step_timeTaken_positive (s : Store) (o : Op) :
  timeTaken_positive s -> add_or_update o -> no_NaN_update o ->
  timeTaken_positive (step s o).
Proof.
  unfold timeTaken_positive. intros Hs Hau Hnan.
  destruct o as [task uuid c1 c2 | i patch now | i | |]; try contradiction.
  - cbn [step]. rewrite tasks_addTask. apply Forall_app. split; [exact Hs |].
    constructor; [apply newTask_positive | constructor].
  - cbn [step]. rewrite tasks_updateTask. apply Forall_map.
    eapply Forall_impl; [| exact Hs].
    intros t Ht. now apply updateOne_positive.
Qed.

(** The part of the invariant that the code keeps: every stored
    [timeTaken] stays positive under adds and under updates whose patch
    does not carry NaN as [timeTaken]. *)
Lemma run_timeTaken_positive (ops : list Op) :
  forall s, timeTaken_positive s ->
            Forall add_or_update ops -> Forall no_NaN_update ops ->
            timeTaken_positive (run s ops).
Proof.
  induction ops as [| o ops IH]; intros s Hs Hau Hnan; [exact Hs |].
  inversion Hau; inversion Hnan; subst. cbn. apply IH; try assumption.
  now apply step_timeTaken_positive.
Qed.

(** C6.  [updateTask] with a patch whose [timeTaken] is NaN stores NaN:
    [NaN <= 0] is false, so the value is not coerced, and the stored
    [timeTaken] is not greater than 0.  [addTask] tests [timeTaken > 0]
    and stores 1 for the same value. *)
Theorem updateTask_stores_NaN :
  let s := run twoTasks [ Update "a" (setTimeTaken nan) "10:00" ] in
  let s' := run twoTasks
              [ Add (payload None "Visit" Todo nan) "c" "10:00" "10:00" ] in
  timeTaken_positive twoTasks
  /\ map timeTaken (tasks s) = [nan; 3%float]
  /\ ~ timeTaken_positive s
  /\ map timeTaken (tasks s') = [2%float; 3%float; 1%float]
  /\ timeTaken_positive s'.
Proof.
  cbv zeta. repeat split.
  - repeat constructor.
  - intros H. inversion H as [| t l Hnan _]. now apply nan_not_positive.
  - repeat constructor.
Qed.

(** ** More about updates *)

Lemma map_unchanged (f : Task -> Task) (l : list Task) :
  (forall t, In t l -> f t = t) -> map f l = l.
Proof.
  induction l as [| u l IH]; intros H; [reflexivity |]. cbn.
  rewrite (H u) by now left. f_equal. apply IH. intros t Ht. apply H. now right.
Qed.

Lemma setTasks_same (f : list Task -> list Task) (s : Store) :
  f (tasks s) = tasks s -> setTasks f s = s.
Proof. intros H. unfold setTasks. rewrite H. now destruct s. Qed.

(** A positive number fails [x <= 0]. *)
Lemma positive_not_leb_zero (x : number) :
  positive x -> (x <=? 0)%float = false.
Proof.
  unfold positive. rewrite leb_spec, ltb_spec.
  change (Prim2SF 0%float) with (S754_zero false).
  destruct (Prim2SF x) as [sg | sg | | sg m e]; try destruct sg; cbn; congruence.
Qed.

Lemma merge_emptyPatch (t : Task) : merge t emptyPatch = t.
Proof. now destruct t. Qed.

Lemma not_entering_Done (st : Status) :
  negb (Status_eqb st Done) && Status_eqb st Done = false.
Proof. now destruct st. Qed.

Lemma updateTask_absent_eq (i : string) (patch : Patch) (now : string)
    (s : Store) :
  absent i s -> updateTask i patch now s = s.
Proof.
  intros Habs. unfold updateTask. apply setTasks_same.
  apply map_unchanged. intros t Ht. apply updateOne_other. now apply Habs.
Qed.

(** X1.  [updateTask] with an identifier that no task of the collection
    carries leaves the whole store as it was. *)
Theorem updateTask_absent_noop (i : string) (patch : Patch) (now : string)
    (s : Store) :
  absent i s -> updateTask i patch now s = s.
Proof. apply updateTask_absent_eq. Qed.

Lemma updateTask_absent_noop_witness :
  updateTask "zz" (setStatus Done) "10:00" twoTasks = twoTasks.
Proof.
  apply updateTask_absent_noop.
  intros t Hin. vm_compute in Hin.
  destruct Hin as [<- | [<- | []]]; cbn; discriminate.
Defined.

(** X2.  In a store whose [timeTaken] values are all positive,
    [updateTask] with the empty patch leaves the whole store as it was,
    for every identifier: nothing is coerced and nothing is stamped. *)
Theorem updateTask_emptyPatch_noop (i : string) (now : string) (s : Store) :
  timeTaken_positive s -> updateTask i emptyPatch now s = s.
Proof.
  intros Hpos. unfold updateTask. apply setTasks_same.
  apply map_unchanged. intros t Ht.
  unfold timeTaken_positive in Hpos. rewrite Forall_forall in Hpos.
  unfold updateOne. destruct (negb (String.eqb (id t) i)); [reflexivity |].
  cbv zeta. rewrite merge_emptyPatch.
  rewrite (positive_not_leb_zero _ (Hpos t Ht)).
  now rewrite not_entering_Done.
Qed.

Lemma updateTask_emptyPatch_noop_witness :
  updateTask "a" emptyPatch "10:00" twoTasks = twoTasks.
Proof.
  apply updateTask_emptyPatch_noop. repeat constructor.
Defined.

(** The fields of the record that [updateTask] stores for a task that
    carries the identifier. *)
Lemma updateOne_fields (patch : Patch) (now : string) (t : Task) :
  let u := updateOne (id t) patch now t in
  let m := merge t patch in
  id u = id m /\ title u = title m /\ status u = status m
  /\ priority u = priority m /\ revenue u = revenue m
  /\ createdAt u = createdAt m
  /\ timeTaken u = (if (timeTaken m <=? 0)%float then 1%float else timeTaken m)
  /\ completedAt u =
       (if negb (Status_eqb (status t) Done) && Status_eqb (status m) Done
        then Some now else completedAt m).
Proof.
  cbv zeta. rewrite updateOne_same by reflexivity. cbv zeta.
  rewrite status_clamp.
  destruct (timeTaken (merge t patch) <=? 0)%float;
    destruct (_ && _); cbn; repeat split; reflexivity.
Qed.

Lemma Task_ext (a b : Task) :
  id a = id b -> title a = title b -> status a = status b ->
  priority a = priority b -> revenue a = revenue b ->
  timeTaken a = timeTaken b -> createdAt a = createdAt b ->
  completedAt a = completedAt b -> a = b.
Proof. destruct a, b. cbn. intros. subst. reflexivity. Qed.

(** The same update, applied to its own result, changes nothing. *)
Lemma updateOne_twice (i : string) (patch : Patch) (now : string) (t : Task) :
  p_completedAt patch = None ->
  updateOne i patch now (updateOne i patch now t) = updateOne i patch now t.
Proof.
  intros Hc.
  destruct (String.eqb_spec (id t) i) as [<- | Hne].
  2: { now rewrite !(updateOne_other i patch now t Hne). }
  set (u := updateOne (id t) patch now t).
  destruct (String.eqb_spec (id u) (id t)) as [Hu | Hu].
  2: { now apply updateOne_other. }
  rewrite <- Hu.
  destruct (updateOne_fields patch now t)
    as (Fid & Fti & Fst & Fpr & Frev & Fca & Ftt & Fco).
  destruct (updateOne_fields patch now u)
    as (Gid & Gti & Gst & Gpr & Grev & Gca & Gtt & Gco).
  fold u in Fid, Fti, Fst, Fpr, Frev, Fca, Ftt, Fco.
  assert (Mst : status (merge u patch) = status u)
    by (unfold merge at 1; cbn; rewrite Fst; unfold merge; cbn;
        now destruct (p_status patch)).
  apply Task_ext.
  - rewrite Gid, Fid. unfold merge; cbn. rewrite Fid. unfold merge; cbn.
    now destruct (p_id patch).
  - rewrite Gti, Fti. unfold merge; cbn. rewrite Fti. unfold merge; cbn.
    now destruct (p_title patch).
  - now rewrite Gst.
  - rewrite Gpr, Fpr. unfold merge; cbn. rewrite Fpr. unfold merge; cbn.
    now destruct (p_priority patch).
  - rewrite Grev, Frev. unfold merge; cbn. rewrite Frev. unfold merge; cbn.
    now destruct (p_revenue patch).
  - rewrite Gtt, Ftt. unfold merge; cbn. rewrite Ftt. unfold merge; cbn.
    destruct (p_timeTaken patch) as [v |]; [reflexivity |].
    destruct (timeTaken t <=? 0)%float eqn:E; [reflexivity | now rewrite E].
  - rewrite Gca, Fca. unfold merge; cbn. rewrite Fca. unfold merge; cbn.
    now destruct (p_createdAt patch).
  - rewrite Gco, Mst, not_entering_Done. unfold merge; cbn. now rewrite Hc.
Qed.

(** X3.  An update whose patch has no [completedAt] key, applied a second
    time with the same arguments, changes nothing: the store after the
    two calls is the store after the first. *)
Theorem updateTask_twice (i : string) (patch : Patch) (now : string) (s : Store) :
  p_completedAt patch = None ->
  updateTask i patch now (updateTask i patch now s) = updateTask i patch now s.
Proof.
  intros Hc. unfold updateTask, setTasks. cbn. f_equal.
  rewrite map_map. apply map_ext. intros t. now apply updateOne_twice.
Qed.

Lemma updateTask_twice_witness :
  updateTask "a" (setTimeTaken (-4)%float) "10:00"
    (updateTask "a" (setTimeTaken (-4)%float) "10:00" twoTasks)
  = updateTask "a" (setTimeTaken (-4)%float) "10:00" twoTasks.
Proof. apply updateTask_twice. reflexivity. Defined.

(** ** More about the undo slot *)

Lemma in_tasks_deleteTask (i : string) (s : Store) (t : Task) :
  In t (tasks (deleteTask i s)) <-> In t (tasks s) /\ id t <> i.
Proof.
  rewrite tasks_deleteTask, filter_In. split; intros [Hin Hb]; split;
    try assumption.
  - destruct (String.eqb_spec (id t) i); [discriminate | assumption].
  - now destruct (String.eqb_spec (id t) i).
Qed.

Lemma deleteTask_absent_eq (i : string) (s : Store) :
  absent i s -> deleteTask i s = setLastDeleted None s.
Proof.
  intros Habs. unfold deleteTask.
  rewrite (find_id_none i (tasks s) Habs).
  apply setTasks_same. cbn. now apply filter_id_all.
Qed.

(** X4.  [deleteTask] removes every record that carries the identifier
    and no other record: a task is in the collection afterwards exactly
    when it was there before and carries another identifier. *)
Theorem deleteTask_removes_exactly (i : string) (s : Store) (t : Task) :
  In t (tasks (deleteTask i s)) <-> In t (tasks s) /\ id t <> i.
Proof. apply in_tasks_deleteTask. Qed.

(** X5.  A second [deleteTask] with the same identifier leaves the
    collection as the first left it and empties the undo slot: the record
    that the first call put there is lost, and [undoDelete] then restores
    nothing. *)
Theorem deleteTask_twice_loses_undo (i : string) (s : Store) :
  let s2 := deleteTask i (deleteTask i s) in
  tasks s2 = tasks (deleteTask i s)
  /\ lastDeleted s2 = None
  /\ undoDelete s2 = s2
  /\ forall t, In t (tasks (undoDelete s2)) -> id t <> i.
Proof.
  cbv zeta.
  assert (Habs : absent i (deleteTask i s)).
  { intros t Ht. now apply in_tasks_deleteTask in Ht. }
  rewrite (deleteTask_absent_eq i (deleteTask i s) Habs).
  repeat split. intros t Hin. now apply Habs.
Qed.

Lemma delete_found_permutation (i : string) (l : list Task) (t : Task) :
  NoDup (map id l) ->
  find (fun u => String.eqb (id u) i) l = Some t ->
  Permutation (t :: filter (fun u => negb (String.eqb (id u) i)) l) l.
Proof.
  induction l as [| u l IH]; cbn; intros Hnd Hf; [discriminate |].
  inversion Hnd as [| x xs Hnotin Hnd']; subst.
  destruct (String.eqb_spec (id u) i) as [Heq | Hne]; cbn.
  - injection Hf as <-. rewrite filter_id_all; [reflexivity |].
    intros v Hv Hvi. apply Hnotin. rewrite Heq, <- Hvi. now apply in_map.
  - etransitivity; [apply perm_swap |]. apply perm_skip. now apply IH.
Qed.

(** X6.  In a collection with distinct identifiers, [deleteTask] of an
    identifier that is present followed by [undoDelete] gives back the
    same records, the restored one at the end: the collection is a
    permutation of the one before, with the same length. *)
Theorem delete_then_undo_permutation (i : string) (s : Store) :
  NoDup (map id (tasks s)) -> In i (map id (tasks s)) ->
  Permutation (tasks (undoDelete (deleteTask i s))) (tasks s)
  /\ List.length (tasks (undoDelete (deleteTask i s))) = List.length (tasks s).
Proof.
  intros Hnd Hin.
  destruct (find_id_some i (tasks s) Hin) as [t [Hf _]].
  assert (Hp : Permutation (tasks (undoDelete (deleteTask i s))) (tasks s)).
  { unfold undoDelete. rewrite lastDeleted_deleteTask, Hf. cbn.
    etransitivity; [symmetry; apply Permutation_cons_append |].
    now apply delete_found_permutation. }
  split; [exact Hp | now apply Permutation_length].
Qed.

Lemma delete_then_undo_permutation_witness :
  Permutation (tasks (undoDelete (deleteTask "a" twoTasks))) (tasks twoTasks)
  /\ List.length (tasks (undoDelete (deleteTask "a" twoTasks)))
     = List.length (tasks twoTasks).
Proof.
  apply delete_then_undo_permutation.
  - vm_compute. repeat constructor; cbn; intuition discriminate.
  - vm_compute. left. reflexivity.
Defined.

(** X7.  [clearLastDeleted] after a delete does not bring the record
    back: the collection is the one that the delete left, the slot is
    empty, and an [undoDelete] that follows changes nothing, so no task
    with the deleted identifier is in the collection. *)
Theorem clearLastDeleted_discards (i : string) (s : Store) :
  let s1 := clearLastDeleted (deleteTask i s) in
  tasks s1 = tasks (deleteTask i s)
  /\ lastDeleted s1 = None
  /\ undoDelete s1 = s1
  /\ forall t, In t (tasks (undoDelete s1)) -> id t <> i.
Proof.
  cbv zeta. repeat split.
  intros t Hin. change (In t (tasks (deleteTask i s))) in Hin.
  now apply in_tasks_deleteTask in Hin.
Qed.

(** X8.  [undoDelete] restores at most once: a second call, after the
    first has been committed, changes nothing. *)
Theorem undoDelete_twice (s : Store) :
  undoDelete (undoDelete s) = undoDelete s.
Proof.
  unfold undoDelete at 2 3. destruct (lastDeleted s) as [t |] eqn:E.
  - reflexivity.
  - unfold undoDelete. now rewrite E.
Qed.

(** ** Invariants of the five operations *)

Lemma Status_eqb_eq (a b : Status) : Status_eqb a b = true <-> a = b.
Proof. destruct a, b; cbn; split; congruence. Qed.

Lemma step_store_positive (s : Store) (o : Op) :
  store_positive s -> no_NaN_update o -> store_positive (step s o).
Proof.
  intros [Hts Hslot] Hnan. unfold store_positive, timeTaken_positive in *.
  destruct o as [task uuid c1 c2 | i patch now | i | |]; cbn [step].
  - split; [| exact Hslot]. rewrite tasks_addTask. apply Forall_app.
    split; [exact Hts |]. constructor; [apply newTask_positive | constructor].
  - split; [| exact Hslot]. rewrite tasks_updateTask. apply Forall_map.
    eapply Forall_impl; [| exact Hts]. intros t Ht. now apply updateOne_positive.
  - rewrite Forall_forall in Hts. split.
    + apply Forall_forall. intros t Ht.
      apply in_tasks_deleteTask in Ht. now apply Hts.
    + intros t Ht. rewrite lastDeleted_deleteTask in Ht.
      apply find_some in Ht. now apply Hts.
  - unfold undoDelete. destruct (lastDeleted s) as [t |] eqn:E.
    + split; [| discriminate]. cbn. apply Forall_app. split; [exact Hts |].
      constructor; [now apply Hslot | constructor].
    + split; [exact Hts |]. now rewrite E.
  - split; [exact Hts | discriminate].
Qed.

(** X9.  From a store in which every [timeTaken], in the collection and
    in the undo slot, is positive, every [timeTaken] is positive after
    every sequence of the five operations in which the patch of each
    [updateTask] has no [timeTaken] key or has one whose value is a
    number other than NaN. *)
Theorem run_store_positive (ops : list Op) (s : Store) :
  store_positive s -> Forall no_NaN_update ops -> store_positive (run s ops).
Proof.
  revert s. induction ops as [| o ops IH]; intros s Hs Hnan; [exact Hs |].
  inversion Hnan; subst. cbn. apply IH; [| assumption].
  now apply step_store_positive.
Qed.

Lemma run_store_positive_witness :
  store_positive
    (run initialStore
       [ Add (payload None "Call client" Todo (-2)%float) "a" "09:00" "09:00";
         Update "a" (setTimeTaken 0%float) "09:10";
         Delete "a";
         Undo ]).
Proof.
  apply run_store_positive.
  - split; [constructor | discriminate].
  - repeat constructor.
Defined.

Lemma newTask_stamped (task : NewTask) (uuid c1 c2 : string) :
  stamped (newTask task uuid c1 c2).
Proof.
  unfold stamped. cbn. intros ->. cbn. discriminate.
Qed.

Lemma updateOne_stamped (i : string) (patch : Patch) (now : string) (t : Task) :
  p_completedAt patch = None -> stamped t -> stamped (updateOne i patch now t).
Proof.
  intros Hc Ht.
  destruct (String.eqb_spec (id t) i) as [<- | Hne].
  2: { now rewrite updateOne_other. }
  destruct (updateOne_fields patch now t)
    as (_ & _ & Fst & _ & _ & _ & _ & Fco).
  unfold stamped. rewrite Fst, Fco. intros Hdone. rewrite Hdone.
  destruct (Status_eqb (status t) Done) eqn:E; cbn; [| discriminate].
  apply Status_eqb_eq in E. unfold merge. cbn. rewrite Hc. now apply Ht.
Qed.

Lemma step_store_stamped (s : Store) (o : Op) :
  store_stamped s -> no_completedAt_key o -> store_stamped (step s o).
Proof.
  intros [Hts Hslot] Hkey. unfold store_stamped in *.
  destruct o as [task uuid c1 c2 | i patch now | i | |]; cbn [step].
  - split; [| exact Hslot]. rewrite tasks_addTask. apply Forall_app.
    split; [exact Hts |]. constructor; [apply newTask_stamped | constructor].
  - split; [| exact Hslot]. rewrite tasks_updateTask. apply Forall_map.
    eapply Forall_impl; [| exact Hts]. intros t Ht. now apply updateOne_stamped.
  - rewrite Forall_forall in Hts. split.
    + apply Forall_forall. intros t Ht.
      apply in_tasks_deleteTask in Ht. now apply Hts.
    + intros t Ht. rewrite lastDeleted_deleteTask in Ht.
      apply find_some in Ht. now apply Hts.
  - unfold undoDelete. destruct (lastDeleted s) as [t |] eqn:E.
    + split; [| discriminate]. cbn. apply Forall_app. split; [exact Hts |].
      constructor; [now apply Hslot | constructor].
    + split; [exact Hts |]. now rewrite E.
  - split; [exact Hts | discriminate].
Qed.

(** X10.  From a store in which every task whose status is Done has a
    [completedAt], in the collection and in the undo slot, this holds
    after every sequence of the five operations in which no [updateTask]
    gets a patch with a [completedAt] key. *)
Theorem run_store_stamped (ops : list Op) (s : Store) :
  store_stamped s -> Forall no_completedAt_key ops -> store_stamped (run s ops).
Proof.
  revert s. induction ops as [| o ops IH]; intros s Hs Hkey; [exact Hs |].
  inversion Hkey; subst. cbn. apply IH; [| assumption].
  now apply step_store_stamped.
Qed.

Lemma run_store_stamped_witness :
  store_stamped
    (run initialStore
       [ Add (payload None "Call client" Done 2%float) "a" "09:00" "09:00";
         Update "a" (setStatus Todo) "09:10";
         Update "a" (setStatus Done) "09:20";
         Delete "a";
         Undo ]).
Proof.
  apply run_store_stamped.
  - split; [constructor | discriminate].
  - repeat constructor.
Defined.

(** ** More about the first load and the metrics *)

(** X11.  Once the component is unmounted the load changes no state,
    whatever the outcome of the fetch. *)
Theorem loadTasks_unmounted (generateSalesTasks : nat -> list Task)
    (outcome : Fetch) (s : Store) :
  loadTasks generateSalesTasks false outcome s = s.
Proof.
  destruct outcome as [m | ok body]; [reflexivity |].
  destruct ok; [| reflexivity]. destruct body; reflexivity.
Qed.

Lemma metrics_snoc (L : Logic) (ts : list Task) (t : Task) :
  totalTimeTaken (metrics L (ts ++ [t]))
  = (totalTimeTaken (metrics L ts) + timeTaken t)%float.
Proof.
  unfold metrics. rewrite length_app, Nat.add_comm. cbn [List.length Nat.add].
  cbn [totalTimeTaken]. rewrite fold_left_app. cbn [fold_left].
  destruct ts; reflexivity.
Qed.

(** X12.  [addTask] raises the [totalTimeTaken] of the metrics by the
    [timeTaken] that it stores: by the given one when it is greater than
    0, by 1 otherwise.  This holds from the empty collection too, where
    the metrics are the initial ones. *)
Theorem addTask_totalTimeTaken (L : Logic) (task : NewTask)
    (uuid createdNow completedNow : string) (s : Store) :
  totalTimeTaken (metrics L (tasks (addTask task uuid createdNow completedNow s)))
  = (totalTimeTaken (metrics L (tasks s))
     + (if (0 <? n_timeTaken task) then n_timeTaken task else 1))%float.
Proof. rewrite tasks_addTask. apply metrics_snoc. Qed.

(** ** The filters of the page *)

Lemma matchesFilters_and (toLowerCase : string -> string)
    (query statusFilter priorityFilter : string) (task : Task) :
  matchesFilters toLowerCase query statusFilter priorityFilter task
  = matchesQuery toLowerCase query task
    && matchesStatus statusFilter task
    && matchesPriority priorityFilter task.
Proof.
  unfold matchesFilters, matchesQuery, matchesStatus, matchesPriority.
  destruct (truthy query), (includes _ _),
    (String.eqb statusFilter "All"), (String.eqb (Status_label _) statusFilter),
    (String.eqb priorityFilter "All"), (String.eqb (Priority_label _) priorityFilter);
    reflexivity.
Qed.

Lemma filter_and {A : Type} (f g : A -> bool) (l : list A) :
  filter g (filter f l) = filter (fun x => f x && g x) l.
Proof.
  induction l as [| x l IH]; [reflexivity |]. cbn.
  destruct (f x); cbn; [destruct (g x) |]; now rewrite IH.
Qed.

Lemma Status_label_inj (a b : Status) : Status_label a = Status_label b -> a = b.
Proof. destruct a, b; cbn; congruence. Qed.

Lemma Priority_label_inj (a b : Priority) :
  Priority_label a = Priority_label b -> a = b.
Proof. destruct a, b; cbn; congruence. Qed.

Section Filters.

Context {DerivedTask : Type}.
Variable base : DerivedTask -> Task.
Variable toLowerCase : string -> string.

(** X13.  The three filters compose: the filtered list is the list
    filtered by the query, then by the status, then by the priority. *)
Theorem filteredTasks_composes (derivedSorted : list DerivedTask)
    (query statusFilter priorityFilter : string) :
  filteredTasks base toLowerCase derivedSorted query statusFilter priorityFilter
  = filter (fun d => matchesPriority priorityFilter (base d))
      (filter (fun d => matchesStatus statusFilter (base d))
         (filter (fun d => matchesQuery toLowerCase query (base d))
            derivedSorted)).
Proof.
  unfold filteredTasks. rewrite !filter_and. apply filter_ext.
  intros d. rewrite matchesFilters_and. now rewrite andb_assoc.
Qed.

(** X14.  With an empty query and both selects on All nothing is
    filtered out. *)
Theorem filteredTasks_unfiltered (derivedSorted : list DerivedTask) :
  filteredTasks base toLowerCase derivedSorted "" "All" "All" = derivedSorted.
Proof.
  unfold filteredTasks. induction derivedSorted as [| d l IH]; [reflexivity |].
  cbn [filter]. rewrite IH. reflexivity.
Qed.

(** X15.  With the selects on a status and a priority, the filtered list
    holds exactly the tasks of the sorted list that have that status and
    that priority and whose title matches the query. *)
Theorem filteredTasks_selects (derivedSorted : list DerivedTask)
    (query : string) (st : Status) (pr : Priority) (d : DerivedTask) :
  In d (filteredTasks base toLowerCase derivedSorted query
          (Status_label st) (Priority_label pr))
  <-> In d derivedSorted
      /\ matchesQuery toLowerCase query (base d) = true
      /\ status (base d) = st
      /\ priority (base d) = pr.
Proof.
  unfold filteredTasks. rewrite filter_In, matchesFilters_and.
  rewrite !andb_true_iff. unfold matchesStatus, matchesPriority.
  assert (Hs : (String.eqb (Status_label st) "All"
                || String.eqb (Status_label (status (base d))) (Status_label st))
               = true <-> status (base d) = st).
  { rewrite orb_true_iff, !String.eqb_eq. split.
    - intros [H | H]; [destruct st; discriminate | now apply Status_label_inj].
    - intros ->. now right. }
  assert (Hp : (String.eqb (Priority_label pr) "All"
                || String.eqb (Priority_label (priority (base d)))
                     (Priority_label pr))
               = true <-> priority (base d) = pr).
  { rewrite orb_true_iff, !String.eqb_eq. split.
    - intros [H | H]; [destruct pr; discriminate | now apply Priority_label_inj].
    - intros ->. now right. }
  rewrite Hs, Hp. tauto.
Qed.

(** X16.  A status filter that is neither All nor the label of a status,
    or a priority filter that is neither All nor the label of a priority,
    filters every task out. *)
Theorem filteredTasks_unknown_label (derivedSorted : list DerivedTask)
    (query statusFilter priorityFilter : string) :
  ~ In statusFilter ["All"; "Todo"; "In Progress"; "Done"]
  \/ ~ In priorityFilter ["All"; "High"; "Medium"; "Low"] ->
  filteredTasks base toLowerCase derivedSorted query statusFilter priorityFilter
  = [].
Proof.
  intros H. unfold filteredTasks.
  induction derivedSorted as [| d l IH]; [reflexivity |]. cbn [filter]. rewrite IH.
  rewrite matchesFilters_and. unfold matchesStatus, matchesPriority.
  destruct H as [H | H].
  - assert (E1 : String.eqb statusFilter "All" = false)
      by (apply String.eqb_neq; intros ->; apply H; cbn; tauto).
    assert (E2 : String.eqb (Status_label (status (base d))) statusFilter = false)
      by (apply String.eqb_neq; intros <-; apply H;
          destruct (status (base d)); cbn; tauto).
    rewrite E1, E2. cbn. now rewrite andb_false_r.
  - assert (E1 : String.eqb priorityFilter "All" = false)
      by (apply String.eqb_neq; intros ->; apply H; cbn; tauto).
    assert (E2 : String.eqb (Priority_label (priority (base d))) priorityFilter
                 = false)
      by (apply String.eqb_neq; intros <-; apply H;
          destruct (priority (base d)); cbn; tauto).
    rewrite E1, E2. cbn. now rewrite andb_false_r.
Qed.

(** X17.  The query counts only through its lower-case form: two
    non-empty queries with the same lower-case form give the same
    filtered list. *)
Theorem filteredTasks_case_insensitive (derivedSorted : list DerivedTask)
    (q1 q2 statusFilter priorityFilter : string) :
  q1 <> "" -> q2 <> "" -> toLowerCase q1 = toLowerCase q2 ->
  filteredTasks base toLowerCase derivedSorted q1 statusFilter priorityFilter
  = filteredTasks base toLowerCase derivedSorted q2 statusFilter priorityFilter.
Proof.
  intros H1 H2 Hlc. unfold filteredTasks. apply filter_ext. intros d.
  unfold matchesFilters, truthy.
  apply String.eqb_neq in H1, H2. now rewrite H1, H2, Hlc.
Qed.

End Filters.

Lemma filteredTasks_unknown_label_witness :
  filteredTasks (fun t : Task => t) lowerString (tasks twoTasks) "" "Archived" "All"
  = [].
Proof.
  apply filteredTasks_unknown_label. left. cbn. intuition discriminate.
Defined.

Lemma filteredTasks_case_insensitive_witness :
  filteredTasks (fun t : Task => t) lowerString (tasks twoTasks) "CALL" "All" "All"
  = filteredTasks (fun t : Task => t) lowerString (tasks twoTasks) "call" "All" "All".
Proof.
  apply filteredTasks_case_insensitive; [discriminate | discriminate | reflexivity].
Defined.

(** ** The activity log *)

Lemma firstn_app_firstn {A : Type} (l1 l2 : list A) :
  forall n m, n <= m -> firstn n (l1 ++ firstn m l2) = firstn n (l1 ++ l2).
Proof.
  induction l1 as [| x l1 IH]; intros n m Hle; cbn [app].
  - rewrite firstn_firstn. now rewrite Nat.min_l.
  - destruct n as [| n]; [reflexivity |]. cbn [firstn]. f_equal.
    apply IH. apply Nat.le_trans with (S n); [apply Nat.le_succ_diag_r | exact Hle].
Qed.

Lemma rev_entryOf (e : Event) : rev (entryOf e) = entryOf e.
Proof. destruct e; reflexivity. Qed.

Lemma activity_handle (a : AppState) (e : Event) :
  List.length (activity a) <= 50 ->
  activity (handle a e) = firstn 50 (entryOf e ++ activity a).
Proof.
  intros Hlen. destruct e; try reflexivity.
  cbn [handle entryOf List.app]. unfold handleCloseUndo. cbn [activity].
  symmetry. now apply firstn_all2.
Qed.

Lemma activity_handle_length (a : AppState) (e : Event) :
  List.length (activity a) <= 50 -> List.length (activity (handle a e)) <= 50.
Proof.
  intros Hlen. rewrite activity_handle by exact Hlen. apply firstn_le_length.
Qed.

(** X18.  The log keeps the 50 most recent entries, the newest first:
    from a log of at most 50 entries, after every sequence of events the
    log is the first 50 of the entries written by the events, in reverse
    order, followed by the entries that were there; its length is the
    number of all these entries, capped at 50. *)
Theorem activity_runApp (events : list Event) (a : AppState) :
  List.length (activity a) <= 50 ->
  activity (runApp a events)
  = firstn 50 (rev (entriesOf events) ++ activity a)
  /\ List.length (activity (runApp a events))
     = Nat.min 50 (List.length (entriesOf events) + List.length (activity a)).
Proof.
  intros Hlen.
  assert (H : activity (runApp a events)
              = firstn 50 (rev (entriesOf events) ++ activity a)).
  { revert a Hlen. induction events as [| e events IH]; intros a Hlen.
    - change (activity a = firstn 50 (activity a)).
      symmetry. now apply firstn_all2.
    - change (runApp a (e :: events)) with (runApp (handle a e) events).
      rewrite IH by now apply activity_handle_length.
      rewrite activity_handle by exact Hlen.
      rewrite firstn_app_firstn by apply Nat.le_refl.
      change (entriesOf (e :: events)) with (entryOf e ++ entriesOf events).
      now rewrite rev_app_distr, rev_entryOf, <- app_assoc. }
  split; [exact H |].
  rewrite H, length_firstn, length_app, length_rev. reflexivity.
Qed.

Lemma activity_runApp_witness :
  let events :=
    [ EvAdd (mkTaskFields "Call client" Todo High 100%float 2%float "" None)
            "a" "09:00" "09:00" "l1" 1%float;
      EvDelete "a" "l2" 2%float;
      EvCloseUndo;
      EvUndo "l3" 3%float ] in
  activity (runApp initialApp events)
  = firstn 50 (rev (entriesOf events) ++ activity initialApp)
  /\ List.length (activity (runApp initialApp events))
     = Nat.min 50 (List.length (entriesOf events)
                   + List.length (activity initialApp)).
Proof.
  intros events. apply activity_runApp. apply Nat.le_0_l.
Defined.

(** X19.  A handler writes its log entry also when the store operation
    finds nothing to do: [handleUndo] with an empty undo slot, and
    [handleDelete] and [handleUpdate] with an identifier that no task
    carries, leave the collection as it was and put their entry at the
    head of the log. *)
Theorem handlers_log_without_effect (a : AppState) (logId : string)
    (logNow : number) :
  (lastDeleted (store a) = None ->
   store (handleUndo logId logNow a) = store a
   /\ hd_error (activity (handleUndo logId logNow a))
      = Some (mkActivityItem logId logNow ActUndo "Undo delete"))
  /\ (forall i, absent i (store a) ->
      tasks (store (handleDelete i logId logNow a)) = tasks (store a)
      /\ hd_error (activity (handleDelete i logId logNow a))
         = Some (mkActivityItem logId logNow ActDelete
                   (String.append "Deleted task: " i)))
  /\ (forall i patch now, absent i (store a) ->
      store (handleUpdate i patch now logId logNow a) = store a
      /\ hd_error (activity (handleUpdate i patch now logId logNow a))
         = Some (mkActivityItem logId logNow ActUpdate
                   (String.append "Updated task: " i))).
Proof.
  split; [| split].
  - intros Hslot. split; [| reflexivity].
    cbn [handleUndo store]. unfold undoDelete. now rewrite Hslot.
  - intros i Habs. split; [| reflexivity].
    cbn [handleDelete store]. now rewrite deleteTask_absent_eq.
  - intros i patch now Habs. split; [| reflexivity].
    cbn [handleUpdate store]. now apply updateTask_absent_eq.
Qed.

Lemma handlers_log_without_effect_witness :
  store (handleUndo "l1" 1%float initialApp) = store initialApp
  /\ hd_error (activity (handleUndo "l1" 1%float initialApp))
     = Some (mkActivityItem "l1" 1%float ActUndo "Undo delete").
Proof.
  destruct (handlers_log_without_effect initialApp "l1" 1%float) as [H _].
  apply H. reflexivity.
Defined.

(** ** What the page shows *)

Lemma step_loading_error (s : Store) (o : Op) :
  loading (step s o) = loading s /\ error (step s o) = error s.
Proof.
  destruct o; cbn; try (split; reflexivity).
  unfold undoDelete. destruct (lastDeleted s); split; reflexivity.
Qed.

Lemma run_loading_error (ops : list Op) (s : Store) :
  loading (run s ops) = loading s /\ error (run s ops) = error s.
Proof.
  revert s. induction ops as [| o ops IH]; intros s; [split; reflexivity |].
  change (run s (o :: ops)) with (run (step s o) ops).
  destruct (IH (step s o)) as [Hl He].
  destruct (step_loading_error s o) as [Hl' He']. split; congruence.
Qed.

(** X20.  The five operations change neither [loading] nor [error], so
    what the first load decides stays: after the load and every sequence
    of operations, the content of the page is hidden exactly when
    [fetch] or [res.json()] threw an error whose message is not the empty
    string, and then the alert is shown; in every other case the content
    is shown and the alert is not. *)
Theorem contentVisible_after_load (generateSalesTasks : nat -> list Task)
    (outcome : Fetch) (ops : list Op) :
  let s := run (loadTasks generateSalesTasks true outcome initialStore) ops in
  contentVisible s
  = match thrown outcome with
    | Some (Some "") => true
    | Some _ => false
    | None => true
    end
  /\ alertVisible s = negb (contentVisible s).
Proof.
  cbv zeta. unfold contentVisible, alertVisible.
  destruct (run_loading_error ops
              (loadTasks generateSalesTasks true outcome initialStore))
    as [-> ->].
  destruct outcome as [m | ok body].
  - destruct m as [[| c m] |]; split; reflexivity.
  - destruct ok; [| split; reflexivity].
    destruct body as [m | data]; [| split; reflexivity].
    destruct m as [[| c m] |]; split; reflexivity.
Qed.

Lemma find_existsb (f : Task -> bool) (l : list Task) :
  match find f l with Some _ => true | None => false end = existsb f l.
Proof.
  induction l as [| t l IH]; [reflexivity |]. cbn. now destruct (f t).
Qed.

(** X21.  The undo snackbar after an event: after a delete it is open
    exactly when a task carried the identifier; after an undo and after
    it is closed it is closed; an add and an update leave it as it
    was. *)
Theorem snackbarOpen_after_event (a : AppState) (e : Event) :
  snackbarOpen (store (handle a e))
  = match e with
    | EvDelete i _ _ =>
        existsb (fun t => String.eqb (id t) i) (tasks (store a))
    | EvUndo _ _ | EvCloseUndo => false
    | EvAdd _ _ _ _ _ _ | EvUpdate _ _ _ _ _ => snackbarOpen (store a)
    end.
Proof.
  destruct e; cbn [handle]; try reflexivity.
  - unfold snackbarOpen. cbn [handleDelete store].
    rewrite lastDeleted_deleteTask. apply find_existsb.
  - unfold snackbarOpen. cbn [handleUndo store]. unfold undoDelete.
    destruct (lastDeleted (store a)) eqn:E; [reflexivity | now rewrite E].
Qed.

(** X22.  A load that does not throw replaces the collection: the tasks
    afterwards are those of the response, or the generated ones, whatever
    the collection held when the load resolved, and the undo slot is left
    as it was. *)
Theorem loadTasks_replaces_collection (generateSalesTasks : nat -> list Task)
    (outcome : Fetch) (s : Store) :
  thrown outcome = None ->
  tasks (loadTasks generateSalesTasks true outcome s)
  = tasks (loadTasks generateSalesTasks true outcome initialStore)
  /\ lastDeleted (loadTasks generateSalesTasks true outcome s) = lastDeleted s.
Proof.
  intros Hthrown. destruct outcome as [m | ok body]; [discriminate |].
  destruct ok; [| split; reflexivity].
  destruct body as [m | data]; [discriminate | split; reflexivity].
Qed.

Lemma loadTasks_replaces_collection_witness :
  tasks (loadTasks sampleSeed true (FetchResponse true (BodyJson JOther)) twoTasks)
  = tasks (loadTasks sampleSeed true (FetchResponse true (BodyJson JOther))
             initialStore)
  /\ lastDeleted
       (loadTasks sampleSeed true (FetchResponse true (BodyJson JOther)) twoTasks)
     = lastDeleted twoTasks.
Proof. apply loadTasks_replaces_collection. reflexivity. Defined.
